(** * Análisis de Cartera (app.py): a shallow embedding and its properties

    The program is a linear pandas script: [cargar_datos] recodes three
    categorical columns, the sidebar filters select rows, a [groupby] on
    [NIU] aggregates them, [formato_pesos] renders amounts, and the
    reports tab derives KPIs and a top-10 table.

    Data model.
    - A Python [str] is a [string] holding its UTF-8 encoding; equality and
      code-point order of [str] coincide with equality and byte order of
      the encodings.
    - A cell of an [object]/[int64] column is a [celda]: a Python [int], a
      [str], or the missing value NaN.  Cells holding floats are outside
      the model.
    - [SALDO_CARTERA] is an [int64] column; its sums wrap around modulo
      2^64 as numpy's do.
    - A scalar handed to [formato_pesos] is a Python [int] or a binary64
      float ([spec_float]). *)

From Stdlib Require Import ZArith List Bool String Ascii Lia.
From Stdlib Require Import DecimalString Sorted Permutation.
From Stdlib Require Import SpecFloat QArith Qabs Qpower.
Import ListNotations.

Local Open Scope list_scope.
Local Open Scope string_scope.
Local Open Scope Z_scope.

(** ** Python strings *)

Module Str.

(** Bytes as numbers, to write the whitespace table of [str.isspace]. *)
Definition ord (a : ascii) : N := N_of_ascii a.

(** One-byte whitespace: U+0009..U+000D, U+001C..U+001F, U+0020. *)
Definition espacio1 (a : ascii) : bool :=
  let n := ord a in
  ((9 <=? n) && (n <=? 13) || (28 <=? n) && (n <=? 32))%N.

(** Two-byte whitespace: U+0085 (C2 85) and U+00A0 (C2 A0). *)
Definition espacio2 (a b : ascii) : bool :=
  ((ord a =? 194) && ((ord b =? 133) || (ord b =? 160)))%N.

(** Three-byte whitespace: U+1680, U+2000..U+200A, U+2028, U+2029,
    U+202F, U+205F, U+3000. *)
Definition espacio3 (a b c : ascii) : bool :=
  let x := ord a in let y := ord b in let z := ord c in
  ((x =? 225) && (y =? 154) && (z =? 128)
   || (x =? 226) && (y =? 128)
      && ((128 <=? z) && (z <=? 138) || (z =? 168) || (z =? 169) || (z =? 175))
   || (x =? 226) && (y =? 129) && (z =? 159)
   || (x =? 227) && (y =? 128) && (z =? 128))%N.

(** [str.lstrip()]: drop leading whitespace characters. *)
Fixpoint lstrip (s : string) : string :=
  match s with
  | EmptyString => s
  | String a t =>
    if espacio1 a then lstrip t else
    match t with
    | EmptyString => s
    | String b u =>
      if espacio2 a b then lstrip u else
      match u with
      | EmptyString => s
      | String c v => if espacio3 a b c then lstrip v else s
      end
    end
  end.

(** The same scan over the reversed bytes: the last byte of a character
    comes first. *)
Fixpoint lstrip_inv (s : list ascii) : list ascii :=
  match s with
  | [] => s
  | c :: t =>
    if espacio1 c then lstrip_inv t else
    match t with
    | [] => s
    | b :: u =>
      if espacio2 b c then lstrip_inv u else
      match u with
      | [] => s
      | a :: v => if espacio3 a b c then lstrip_inv v else s
      end
    end
  end.

(** [str.rstrip()]. *)
Definition rstrip (s : string) : string :=
  string_of_list_ascii (rev (lstrip_inv (rev (list_ascii_of_string s)))).

(** [str.strip()] with no argument. *)
Definition strip (s : string) : string := rstrip (lstrip s).

(** [str(z)] for a Python [int]. *)
Definition of_Z (z : Z) : string := NilZero.string_of_int (Z.to_int z).

(** [s.replace(old, new)] for one-character [old] and [new]. *)
Fixpoint replace_char (old new : ascii) (s : string) : string :=
  match s with
  | EmptyString => EmptyString
  | String a t =>
    String (if Ascii.eqb a old then new else a) (replace_char old new t)
  end.

End Str.

(** ** Cells and dictionaries *)

(** A cell as [read_excel] delivers it. *)
Inductive celda : Type :=
| CInt (z : Z)
| CStr (s : string)
| CNaN.

Definition celda_eqb (a b : celda) : bool :=
  match a, b with
  | CInt x, CInt y => Z.eqb x y
  | CStr s, CStr t => String.eqb s t
  | CNaN, CNaN => true
  | _, _ => false
  end.

(** [Series.isna] on one cell. *)
Definition isna (c : celda) : bool :=
  match c with CNaN => true | _ => false end.

(** [Series.astype(str)] on one cell. *)
Definition astype_str (c : celda) : string :=
  match c with
  | CInt z => Str.of_Z z
  | CStr s => s
  | CNaN => "nan"
  end.

(** A dict literal with [str] keys and values, in insertion order. *)
Definition dict := list (string * string).

Fixpoint dict_get (d : dict) (k : string) : option string :=
  match d with
  | [] => None
  | (k', v) :: d' => if String.eqb k' k then Some v else dict_get d' k
  end.

Definition dict_keys (d : dict) : list string := map fst d.
Definition dict_values (d : dict) : list string := map snd d.

(** [x in xs] for strings. *)
Definition str_in (x : string) (xs : list string) : bool :=
  existsb (String.eqb x) xs.

(** [Series.replace(d)] on one string cell: a whole-value lookup, the
    value itself when it is no key. *)
Definition replace (d : dict) (x : string) : string :=
  match dict_get d x with
  | Some v => v
  | None => x
  end.

(** ** cargar_datos: the recoding tables *)

Definition reemplazos_servicio : dict :=
  [ ("1", "Residencial"); ("2", "Comercial"); ("3", "Industrial");
    ("4", "Oficial"); ("5", "Alumbrado Público"); ("6", "Especial");
    ("7", "Provisional"); ("10", "Área Común"); ("11", "Autoconsumo") ].

Definition reemplazos_edad : dict :=
  [ ("0", "Corriente"); ("1", "1 a 30 Días"); ("2", "31 a 60 Días");
    ("3", "61 a 90 Días"); ("4", "91 a 120 Días"); ("5", "121 a 150 Días");
    ("6", "151 a 180 Días") ].

Definition reemplazos_codigo : dict :=
  [ ("601", "Energía"); ("603", "Somos"); ("609", "Terceros") ].

(** The overflow label of the aging bucket. *)
Definition mayor_180 : string := "> a 180 Días".

(** [df['CLASE_SERVICIO'].astype(str).str.strip().replace(reemplazos_servicio)] *)
Definition col_CLASE_SERVICIO (c : celda) : string :=
  replace reemplazos_servicio (Str.strip (astype_str c)).

(** The two assignments to [df['EDAD']]: the replacement, then the lambda
    that keeps a value only when it is one of the dict's values. *)
Definition col_EDAD (c : celda) : string :=
  let x := replace reemplazos_edad (Str.strip (astype_str c)) in
  if negb (str_in x (dict_values reemplazos_edad)) then mayor_180 else x.

(** [df['CODIGO_DEL_SERVICIO'].astype(str).str.strip().replace(reemplazos_codigo)] *)
Definition col_CODIGO_DEL_SERVICIO (c : celda) : string :=
  replace reemplazos_codigo (Str.strip (astype_str c)).

(** ** The table *)

(** One row of the sheet, by column name. *)
Record fila : Type := {
  NIU : celda;
  NOMBRE : celda;
  DIRECCION : celda;
  DESCRIPCION_MUNICIPIO : celda;
  CICLO : celda;
  CLASE_SERVICIO : celda;
  EDAD : celda;
  CODIGO_DEL_SERVICIO : celda;
  SALDO_CARTERA : Z
}.

Definition tabla := list fila.

(** The three column assignments of [cargar_datos] on one row; the other
    columns are left as read. *)
Definition recodificar (r : fila) : fila :=
  {| NIU := NIU r;
     NOMBRE := NOMBRE r;
     DIRECCION := DIRECCION r;
     DESCRIPCION_MUNICIPIO := DESCRIPCION_MUNICIPIO r;
     CICLO := CICLO r;
     CLASE_SERVICIO := CStr (col_CLASE_SERVICIO (CLASE_SERVICIO r));
     EDAD := CStr (col_EDAD (EDAD r));
     CODIGO_DEL_SERVICIO := CStr (col_CODIGO_DEL_SERVICIO (CODIGO_DEL_SERVICIO r));
     SALDO_CARTERA := SALDO_CARTERA r |}.

(** [cargar_datos], from the rows that [read_excel] returns. *)
Definition cargar_datos (crudo : tabla) : tabla := map recodificar crudo.

(** ** The sidebar filters *)

(** The widgets' values when "Aplicar filtros" is pressed: five
    multiselect lists and the selectbox string ([""] for no NIU). *)
Record filtros : Type := {
  municipio : list celda;
  ciclo : list celda;
  clase_servicio : list celda;
  edad : list celda;
  servicio : list celda;
  niu : string
}.

(** [Series.isin(valores)] on one cell. *)
Definition isin (c : celda) (valores : list celda) : bool :=
  existsb (celda_eqb c) valores.

(** Truth value of a Python list and of a Python string. *)
Definition no_vacia {A : Type} (l : list A) : bool :=
  match l with [] => false | _ => true end.

Definition no_vacio (s : string) : bool :=
  match s with EmptyString => false | _ => true end.

(** [if seleccion: df = df[df[col].isin(seleccion)]] *)
Definition filtrar_isin (col : fila -> celda) (seleccion : list celda)
    (df : tabla) : tabla :=
  if no_vacia seleccion then filter (fun r => isin (col r) seleccion) df
  else df.

(** [if niu: df = df[df["NIU"].astype(str) == niu]] *)
Definition filtrar_niu (n : string) (df : tabla) : tabla :=
  if no_vacio n then filter (fun r => String.eqb (astype_str (NIU r)) n) df
  else df.

(** The six conditional assignments to [df_filtrado], in source order. *)
Definition df_filtrado (f : filtros) (df : tabla) : tabla :=
  let d := df in
  let d := filtrar_isin DESCRIPCION_MUNICIPIO (municipio f) d in
  let d := filtrar_isin CICLO (ciclo f) d in
  let d := filtrar_isin CLASE_SERVICIO (clase_servicio f) d in
  let d := filtrar_isin EDAD (edad f) d in
  let d := filtrar_isin CODIGO_DEL_SERVICIO (servicio f) d in
  filtrar_niu (niu f) d.

(** ** int64 sums *)

(** Two's-complement wrap-around to 64 bits. *)
Definition wrap64 (z : Z) : Z := (z + 2 ^ 63) mod 2 ^ 64 - 2 ^ 63.

(** [Series.sum()] and the group-wise ['sum'] on an [int64] column. *)
Definition suma_int64 (l : list Z) : Z :=
  fold_left (fun acc x => wrap64 (acc + x)) l 0.

(** ** groupby(['NIU']).agg(...) *)

(** Order of group keys: integers by value, then strings by code point,
    missing values last. *)
Definition clave_leb (a b : celda) : bool :=
  match a, b with
  | CInt x, CInt y => Z.leb x y
  | CInt _, _ => true
  | CStr _, CInt _ => false
  | CStr s, CStr t => String.leb s t
  | CStr _, CNaN => true
  | CNaN, CNaN => true
  | CNaN, _ => false
  end.

(** Distinct values in order of first appearance ([Series.unique]). *)
Fixpoint unique (l : list celda) : list celda :=
  match l with
  | [] => []
  | x :: t => x :: filter (fun y => negb (celda_eqb x y)) (unique t)
  end.

(** [Series.dropna]. *)
Definition dropna (l : list celda) : list celda :=
  filter (fun c => negb (isna c)) l.

Fixpoint insertar (x : celda) (l : list celda) : list celda :=
  match l with
  | [] => [x]
  | y :: t => if clave_leb x y then x :: y :: t else y :: insertar x t
  end.

(** Ascending sort of the keys. *)
Fixpoint ordenar (l : list celda) : list celda :=
  match l with
  | [] => []
  | x :: t => insertar x (ordenar t)
  end.

(** The group keys: [sort=True], [dropna=True]. *)
Definition claves (df : tabla) : list celda :=
  ordenar (unique (dropna (map NIU df))).

(** The rows of one group, in the order of the frame. *)
Definition grupo (k : celda) (df : tabla) : tabla :=
  filter (fun r => celda_eqb (NIU r) k) df.

(** The ['first'] aggregation: the first value of the column that is not
    missing, NaN when the group has none. *)
Definition first (l : list celda) : celda :=
  match find (fun c => negb (isna c)) l with
  | Some c => c
  | None => CNaN
  end.

(** One row of the aggregated frame ([reset_index] turns the key into the
    column [NIU]). *)
Record fila_agrupada : Type := {
  g_NIU : celda;
  g_SALDO_CARTERA : Z;
  g_NOMBRE : celda;
  g_DIRECCION : celda;
  g_DESCRIPCION_MUNICIPIO : celda;
  g_CICLO : celda;
  g_EDAD : celda;
  g_CODIGO_DEL_SERVICIO : celda
}.

Definition agregar (k : celda) (g : tabla) : fila_agrupada :=
  {| g_NIU := k;
     g_SALDO_CARTERA := suma_int64 (map SALDO_CARTERA g);
     g_NOMBRE := first (map NOMBRE g);
     g_DIRECCION := first (map DIRECCION g);
     g_DESCRIPCION_MUNICIPIO := first (map DESCRIPCION_MUNICIPIO g);
     g_CICLO := first (map CICLO g);
     g_EDAD := first (map EDAD g);
     g_CODIGO_DEL_SERVICIO := first (map CODIGO_DEL_SERVICIO g) |}.

(** [agrupado = df_filtrado.groupby(['NIU']).agg({...}).reset_index()] *)
Definition agrupado (df : tabla) : list fila_agrupada :=
  map (fun k => agregar k (grupo k df)) (claves df).

(** ** formato_pesos *)

(** The argument of [formato_pesos]: a Python or numpy integer, or a
    float. *)
Inductive valor : Type :=
| VInt (z : Z)
| VFloat (f : spec_float).

(** Precision and exponent bound of binary64. *)
Definition prec : Z := 53.
Definition emax : Z := 1024.

(** [float(z)]: the nearest double, ties to even; [None] is Python's
    [OverflowError] for an integer beyond the doubles. *)
Definition float_of_int (z : Z) : option spec_float :=
  match binary_normalize prec emax z 0 false with
  | S754_infinity _ => None
  | f => Some f
  end.

(** The integer nearest to [m * 2^e], ties to the even one: what the
    presentation type [f] with precision 0 prints of a finite float. *)
Definition redondear (m : positive) (e : Z) : Z :=
  if 0 <=? e then Z.pos m * 2 ^ e
  else
    let d := 2 ^ (- e) in
    let q := Z.pos m / d in
    let r := Z.pos m mod d in
    match 2 * r ?= d with
    | Lt => q
    | Gt => q + 1
    | Eq => if Z.even q then q else q + 1
    end.

(** The two separators of the one-line formatter. *)
Definition coma : ascii := ",".
Definition punto : ascii := ".".

(** The [,] option of the format specification: walking the digits from
    the right, a comma after every third digit that has digits to its
    left.  [n] counts the digits emitted since the last comma. *)
Fixpoint agrupar_inv (l : list ascii) (n : nat) : list ascii :=
  match l with
  | [] => []
  | d :: t =>
    match t with
    | [] => [d]
    | _ :: _ =>
      match n with
      | 2%nat => d :: coma :: agrupar_inv t 0
      | _ => d :: agrupar_inv t (S n)
      end
    end
  end.

Definition agrupar (digitos : string) : string :=
  string_of_list_ascii
    (rev (agrupar_inv (rev (list_ascii_of_string digitos)) 0)).

(** The sign that the format prints: nothing for a cleared sign bit. *)
Definition signo (s : bool) : string := if s then "-" else "".

(** [format(x, ",.0f")] for a float [x]. *)
Definition format_coma_0f (x : spec_float) : string :=
  match x with
  | S754_nan => "nan"
  | S754_infinity s => (signo s ++ "inf")%string
  | S754_zero s => (signo s ++ "0")%string
  | S754_finite s m e => (signo s ++ agrupar (Str.of_Z (redondear m e)))%string
  end.

(** [f"${valor:,.0f}".replace(",", ".")]; an integer is converted to
    float by the format type [f]. *)
Definition formato_pesos (v : valor) : option string :=
  match match v with VInt z => float_of_int z | VFloat x => Some x end with
  | Some x => Some (Str.replace_char coma punto ("$" ++ format_coma_0f x)%string)
  | None => None
  end.

(** ** The reports tab *)

(** [df[df["CODIGO_DEL_SERVICIO"] == filtro_servicio]] *)
Definition df_filtrado_servicio (filtro_servicio : string) (df : tabla) : tabla :=
  filter (fun r => celda_eqb (CODIGO_DEL_SERVICIO r) (CStr filtro_servicio)) df.

(** [df_filtrado_servicio["SALDO_CARTERA"].sum()] *)
Definition saldo_total (d : tabla) : Z := suma_int64 (map SALDO_CARTERA d).

(** [df_filtrado_servicio["NIU"].nunique()]: missing values are not
    counted. *)
Definition clientes_unicos (d : tabla) : Z :=
  Z.of_nat (List.length (unique (dropna (map NIU d)))).

(** numpy's cast of an [int64] to [float64]: the nearest double, ties to
    even. *)
Definition float64_of_int (z : Z) : spec_float :=
  binary_normalize prec emax z 0 false.

(** [a / b] on a numpy [int64] and a Python [int]: both operands are
    cast to [float64] and divided.  [None] marks a division by zero. *)
Definition truediv (a b : Z) : option valor :=
  if b =? 0 then None
  else Some (VFloat (SFdiv prec emax (float64_of_int a) (float64_of_int b))).

(** [saldo_total / clientes_unicos if clientes_unicos > 0 else 0] *)
Definition promedio (d : tabla) : option valor :=
  if clientes_unicos d >? 0 then truediv (saldo_total d) (clientes_unicos d)
  else Some (VInt 0).

(** *** Top 10 *)









(** ** The charts of the reports tab *)

(** The keys of [groupby(col)], found as for [NIU]: missing values left
    out, ascending. *)
Definition claves_por (col : fila -> celda) (df : tabla) : list celda :=
  ordenar (unique (dropna (map col df))).

(** The rows of the group of key [k]. *)
Definition grupo_por (col : fila -> celda) (k : celda) (df : tabla) : tabla :=
  filter (fun r => celda_eqb (col r) k) df.

(** One bar of "USUARIOS POR EDADES". *)
Record fila_edad : Type := {
  e_EDAD : celda;
  e_SALDO_CARTERA : Z;
  e_NIU : Z;
  e_SALDO_CARTERA_MILES : spec_float
}.

(** [cartera_por_edad = df_filtrado_servicio.groupby('EDAD')
      .agg({'SALDO_CARTERA': 'sum', 'NIU': 'nunique'}).reset_index()]
    and the column [SALDO_CARTERA_MILES = SALDO_CARTERA / 1000]. *)
Definition cartera_por_edad (d : tabla) : list fila_edad :=
  map (fun k =>
         let g := grupo_por EDAD k d in
         let s := suma_int64 (map SALDO_CARTERA g) in
         {| e_EDAD := k;
            e_SALDO_CARTERA := s;
            e_NIU := clientes_unicos g;
            e_SALDO_CARTERA_MILES :=
              SFdiv prec emax (float64_of_int s) (float64_of_int 1000) |})
      (claves_por EDAD d).




(** ** Notions used to state the properties *)

(** The specification's reading of one field: an empty selection admits
    every value, a non-empty one admits its members. *)
Definition admite (seleccion : list celda) (c : celda) : Prop :=
  seleccion = [] \/ In c seleccion.

(** The rows the specification keeps: every field admits the row's value,
    and the row's NIU, cast to string, is the selected one if any. *)
Definition cumple (f : filtros) (r : fila) : Prop :=
  admite (municipio f) (DESCRIPCION_MUNICIPIO r)
  /\ admite (ciclo f) (CICLO r)
  /\ admite (clase_servicio f) (CLASE_SERVICIO r)
  /\ admite (edad f) (EDAD r)
  /\ admite (servicio f) (CODIGO_DEL_SERVICIO r)
  /\ (niu f = "" \/ astype_str (NIU r) = niu f).

(** [admite] and [cumple] as decision procedures. *)
Definition admiteb (seleccion : list celda) (c : celda) : bool :=
  negb (no_vacia seleccion) || isin c seleccion.

Definition cumpleb (f : filtros) (r : fila) : bool :=
  admiteb (municipio f) (DESCRIPCION_MUNICIPIO r)
  && admiteb (ciclo f) (CICLO r)
  && admiteb (clase_servicio f) (CLASE_SERVICIO r)
  && admiteb (edad f) (EDAD r)
  && admiteb (servicio f) (CODIGO_DEL_SERVICIO r)
  && (negb (no_vacio (niu f)) || String.eqb (astype_str (NIU r)) (niu f)).

(** The selection with nothing chosen in any widget. *)
Definition sin_filtros : filtros :=
  {| municipio := []; ciclo := []; clase_servicio := []; edad := [];
     servicio := []; niu := "" |}.

(** [a] sorts no later than [b]. *)
Definition clave_le (a b : celda) : Prop := clave_leb a b = true.

(** [a] sorts strictly before [b]. *)
Definition clave_lt (a b : celda) : Prop := clave_leb a b = true /\ a <> b.

(** The exact sum, in [Z]. *)
Definition suma (l : list Z) : Z := fold_right Z.add 0 l.

(** A sample row, to write concrete tables. *)
Definition fila_de (n nombre municipio_ : celda) (edad_ codigo : celda)
    (saldo : Z) : fila :=
  {| NIU := n; NOMBRE := nombre; DIRECCION := CStr "CL 1 2-3";
     DESCRIPCION_MUNICIPIO := municipio_; CICLO := CInt 1;
     CLASE_SERVICIO := CInt 1; EDAD := edad_;
     CODIGO_DEL_SERVICIO := codigo; SALDO_CARTERA := saldo |}.

(** [c] is the first value of [l] that is not missing, or NaN when every
    value of [l] is missing. *)
Definition primer_valor (l : list celda) (c : celda) : Prop :=
  (exists pre post,
      l = (pre ++ c :: post)%list /\ Forall (fun x => x = CNaN) pre /\ c <> CNaN)
  \/ (Forall (fun x => x = CNaN) l /\ c = CNaN).

(** The descriptive columns, each with its column of the aggregated
    frame. *)
Definition descriptivas : list ((fila -> celda) * (fila_agrupada -> celda)) :=
  [ (NOMBRE, g_NOMBRE); (DIRECCION, g_DIRECCION);
    (DESCRIPCION_MUNICIPIO, g_DESCRIPCION_MUNICIPIO); (CICLO, g_CICLO);
    (EDAD, g_EDAD); (CODIGO_DEL_SERVICIO, g_CODIGO_DEL_SERVICIO) ].






(** The selection with only a NIU chosen. *)
Definition solo_niu (n : string) : filtros :=
  {| municipio := []; ciclo := []; clase_servicio := []; edad := [];
     servicio := []; niu := n |}.

(** * Properties *)

(** ** Cells and dictionaries *)

Lemma celda_eqb_spec (a b : celda) : reflect (a = b) (celda_eqb a b).
Proof.
  destruct a as [x|s|], b as [y|t|]; simpl; try (constructor; congruence).
  - destruct (Z.eqb_spec x y); constructor; congruence.
  - destruct (String.eqb_spec s t); constructor; congruence.
Qed.

Lemma celda_eqb_eq (a b : celda) : celda_eqb a b = true <-> a = b.
Proof. destruct (celda_eqb_spec a b); split; congruence. Qed.

Lemma celda_eqb_refl (a : celda) : celda_eqb a a = true.
Proof. now apply celda_eqb_eq. Qed.

Lemma isin_In (c : celda) (l : list celda) : isin c l = true <-> In c l.
Proof.
  unfold isin. rewrite existsb_exists. split.
  - intros [x [Hin Heq]]. apply celda_eqb_eq in Heq. now subst.
  - intros Hin. exists c. split; [assumption | apply celda_eqb_refl].
Qed.

Lemma str_in_In (x : string) (l : list string) : str_in x l = true <-> In x l.
Proof.
  unfold str_in. rewrite existsb_exists. split.
  - intros [y [Hin Heq]]. apply String.eqb_eq in Heq. now subst.
  - intros Hin. exists x. split; [assumption | apply String.eqb_refl].
Qed.

Lemma str_in_false (x : string) (l : list string) :
  ~ In x l -> str_in x l = false.
Proof.
  intros H. destruct (str_in x l) eqn:E; [|reflexivity].
  apply str_in_In in E. contradiction.
Qed.

Lemma dict_get_ausente (d : dict) (k : string) :
  ~ In k (dict_keys d) -> dict_get d k = None.
Proof.
  induction d as [|[k' v] d IH]; simpl; intros H; [reflexivity|].
  destruct (String.eqb_spec k' k) as [->|Hne].
  - exfalso. apply H. now left.
  - apply IH. intros Hin. apply H. now right.
Qed.

Lemma replace_ausente (d : dict) (x : string) :
  ~ In x (dict_keys d) -> replace d x = x.
Proof. intros H. unfold replace. now rewrite dict_get_ausente. Qed.

(** Solves [In (x, v) tabla -> f x = v] over a literal table. *)
Ltac por_entrada H :=
  simpl in H;
  repeat (destruct H as [H|H]; [injection H as <- <-; reflexivity|]);
  contradiction.

(** ** Recoding of the three columns *)

Lemma replace_servicio_entrada (x v : string) :
  In (x, v) reemplazos_servicio -> replace reemplazos_servicio x = v.
Proof. intros H. por_entrada H. Qed.

Lemma replace_edad_entrada (x v : string) :
  In (x, v) reemplazos_edad -> replace reemplazos_edad x = v.
Proof. intros H. por_entrada H. Qed.

(** No label of the aging table is one of its codes. *)
Lemma etiqueta_edad_no_es_codigo (x : string) :
  In x (dict_values reemplazos_edad) -> ~ In x (dict_keys reemplazos_edad).
Proof.
  intros H. simpl in H.
  repeat (destruct H as [<-|H];
          [simpl; intros K; repeat (destruct K as [K|K]; [discriminate K|]);
           exact K|]).
  contradiction.
Qed.

(** C1 (as stated, refuted): the specification sends every raw value whose trimmed
    string form is not one of "0".."6" to the overflow label; a raw cell
    that already holds the label "Corriente" keeps it. *)
Lemma col_EDAD_etiqueta_no_desborda :
  ~ (forall c : celda,
       ~ In (Str.strip (astype_str c)) (dict_keys reemplazos_edad) ->
       col_EDAD c = mayor_180).
Proof.
  intros H. specialize (H (CStr "Corriente")).
  assert (K : ~ In (Str.strip (astype_str (CStr "Corriente")))
                  (dict_keys reemplazos_edad)).
  { vm_compute. intros K. repeat (destruct K as [K|K]; [discriminate K|]).
    exact K. }
  apply H in K. vm_compute in K. discriminate K.
Qed.

(** C1 (amended): with [x] the string-cast, trimmed raw value, the aging
    recoding returns the table's label when [x] is one of the codes
    "0".."6", returns [x] itself when [x] already is one of the seven
    labels, and returns the overflow label for every other value; so the
    recoded column holds only the seven labels and the overflow label. *)
Theorem col_EDAD_total (c : celda) :
  let x := Str.strip (astype_str c) in
  (forall v, In (x, v) reemplazos_edad -> col_EDAD c = v)
  /\ (In x (dict_values reemplazos_edad) -> col_EDAD c = x)
  /\ (~ In x (dict_keys reemplazos_edad) ->
      ~ In x (dict_values reemplazos_edad) -> col_EDAD c = mayor_180)
  /\ (In (col_EDAD c) (dict_values reemplazos_edad) \/ col_EDAD c = mayor_180).
Proof.
  intros x. unfold col_EDAD. fold x. repeat split.
  - intros v H. rewrite (replace_edad_entrada _ _ H).
    assert (Hv : In v (dict_values reemplazos_edad)).
    { unfold dict_values. change v with (snd (x, v)). now apply in_map. }
    apply str_in_In in Hv. now rewrite Hv.
  - intros H. rewrite replace_ausente by now apply etiqueta_edad_no_es_codigo.
    apply str_in_In in H. now rewrite H.
  - intros Hk Hv. rewrite replace_ausente by assumption.
    now rewrite str_in_false.
  - destruct (str_in (replace reemplazos_edad x) (dict_values reemplazos_edad))
      eqn:E; cbn [negb].
    + left. now apply str_in_In.
    + now right.
Qed.

Lemma col_EDAD_total_witness :
  col_EDAD (CInt 0) = "Corriente"
  /\ col_EDAD (CStr " 151 a 180 Días ") = "151 a 180 Días"
  /\ col_EDAD (CInt 9) = mayor_180
  /\ col_EDAD CNaN = mayor_180.
Proof.
  split; [|split; [|split]].
  - apply (col_EDAD_total (CInt 0)). vm_compute. now left.
  - apply (col_EDAD_total (CStr " 151 a 180 Días ")). vm_compute. tauto.
  - apply (col_EDAD_total (CInt 9));
      vm_compute; intros K; repeat (destruct K as [K|K]; [discriminate K|]);
      exact K.
  - apply (col_EDAD_total CNaN);
      vm_compute; intros K; repeat (destruct K as [K|K]; [discriminate K|]);
      exact K.
Defined.

(** C4 (as stated, refuted): the specification returns the original raw value
    unchanged whenever its trimmed string form is not one of the nine
    codes; the raw cell [" 8 "] comes back as ["8"]. *)
Lemma col_CLASE_SERVICIO_no_devuelve_crudo :
  ~ (forall c : celda,
       ~ In (Str.strip (astype_str c)) (dict_keys reemplazos_servicio) ->
       CStr (col_CLASE_SERVICIO c) = c).
Proof.
  intros H. specialize (H (CStr " 8 ")).
  assert (K : ~ In (Str.strip (astype_str (CStr " 8 ")))
                  (dict_keys reemplazos_servicio)).
  { vm_compute. intros K. repeat (destruct K as [K|K]; [discriminate K|]).
    exact K. }
  apply H in K. vm_compute in K. discriminate K.
Qed.

(** C4 (amended): with [x] the string-cast, trimmed raw value, the
    service-class recoding returns the table's label when [x] is one of
    the nine codes 1,2,3,4,5,6,7,10,11, and returns [x] (the trimmed
    string, not the raw cell) for every other value; a raw cell that
    already is a trimmed string other than the codes is returned as it
    is. *)
Theorem col_CLASE_SERVICIO_spec (c : celda) :
  let x := Str.strip (astype_str c) in
  (forall v, In (x, v) reemplazos_servicio -> col_CLASE_SERVICIO c = v)
  /\ (~ In x (dict_keys reemplazos_servicio) -> col_CLASE_SERVICIO c = x)
  /\ (~ In x (dict_keys reemplazos_servicio) -> c = CStr x ->
      CStr (col_CLASE_SERVICIO c) = c).
Proof.
  intros x. unfold col_CLASE_SERVICIO. fold x. split; [|split].
  - intros v H. now apply replace_servicio_entrada.
  - intros H. now apply replace_ausente.
  - intros H Hc. rewrite replace_ausente by assumption. now symmetry.
Qed.

Lemma col_CLASE_SERVICIO_spec_witness :
  col_CLASE_SERVICIO (CInt 10) = "Área Común"
  /\ col_CLASE_SERVICIO (CStr " 8 ") = "8"
  /\ CStr (col_CLASE_SERVICIO (CStr "8")) = CStr "8".
Proof.
  split; [|split].
  - apply (col_CLASE_SERVICIO_spec (CInt 10)). vm_compute. tauto.
  - apply (col_CLASE_SERVICIO_spec (CStr " 8 ")).
    vm_compute. intros K. repeat (destruct K as [K|K]; [discriminate K|]).
    exact K.
  - apply (col_CLASE_SERVICIO_spec (CStr "8")); [|reflexivity].
    vm_compute. intros K. repeat (destruct K as [K|K]; [discriminate K|]).
    exact K.
Defined.

(** C5 (as stated, refuted): the specification returns the raw value unchanged
    whenever its trimmed string form is none of "601", "603", "609"; the
    raw cell [" 700 "] comes back as ["700"], and the integer cell 700 as
    the string ["700"]. *)
Lemma col_CODIGO_DEL_SERVICIO_no_devuelve_crudo :
  ~ (forall c : celda,
       ~ In (Str.strip (astype_str c)) (dict_keys reemplazos_codigo) ->
       CStr (col_CODIGO_DEL_SERVICIO c) = c).
Proof.
  intros H. specialize (H (CStr " 700 ")).
  assert (K : ~ In (Str.strip (astype_str (CStr " 700 ")))
                  (dict_keys reemplazos_codigo)).
  { vm_compute. intros K. repeat (destruct K as [K|K]; [discriminate K|]).
    exact K. }
  apply H in K. vm_compute in K. discriminate K.
Qed.

(** C5 (amended): with [x] the string-cast, trimmed raw value, the
    service-code recoding returns [x] unchanged when [x] is none of
    "601", "603", "609" (so a raw cell that already is such a trimmed
    string is returned as it is), and the three listed codes map to
    their labels. *)
Theorem col_CODIGO_DEL_SERVICIO_spec (c : celda) :
  let x := Str.strip (astype_str c) in
  (~ In x ["601"; "603"; "609"] -> col_CODIGO_DEL_SERVICIO c = x)
  /\ (~ In x ["601"; "603"; "609"] -> c = CStr x ->
      CStr (col_CODIGO_DEL_SERVICIO c) = c)
  /\ (x = "601" -> col_CODIGO_DEL_SERVICIO c = "Energía")
  /\ (x = "603" -> col_CODIGO_DEL_SERVICIO c = "Somos")
  /\ (x = "609" -> col_CODIGO_DEL_SERVICIO c = "Terceros").
Proof.
  intros x. unfold col_CODIGO_DEL_SERVICIO. fold x.
  split; [|split; [|split; [|split]]].
  - intros H. now apply replace_ausente.
  - intros H Hc. rewrite replace_ausente by assumption. now symmetry.
  - intros ->. reflexivity.
  - intros ->. reflexivity.
  - intros ->. reflexivity.
Qed.

Lemma col_CODIGO_DEL_SERVICIO_spec_witness :
  col_CODIGO_DEL_SERVICIO (CInt 700) = "700"
  /\ CStr (col_CODIGO_DEL_SERVICIO (CStr "700")) = CStr "700"
  /\ col_CODIGO_DEL_SERVICIO (CInt 601) = "Energía"
  /\ col_CODIGO_DEL_SERVICIO (CStr "603 ") = "Somos"
  /\ col_CODIGO_DEL_SERVICIO (CInt 609) = "Terceros".
Proof.
  split; [|split; [|split; [|split]]].
  - apply (col_CODIGO_DEL_SERVICIO_spec (CInt 700)).
    vm_compute. intros K. repeat (destruct K as [K|K]; [discriminate K|]).
    exact K.
  - apply (col_CODIGO_DEL_SERVICIO_spec (CStr "700")); [|reflexivity].
    vm_compute. intros K. repeat (destruct K as [K|K]; [discriminate K|]).
    exact K.
  - apply (col_CODIGO_DEL_SERVICIO_spec (CInt 601)). reflexivity.
  - apply (col_CODIGO_DEL_SERVICIO_spec (CStr "603 ")). reflexivity.
  - apply (col_CODIGO_DEL_SERVICIO_spec (CInt 609)). reflexivity.
Defined.

(** ** The filter engine *)

Lemma admiteb_spec (sel : list celda) (c : celda) :
  admiteb sel c = true <-> admite sel c.
Proof.
  unfold admiteb, admite. destruct sel as [|s sel]; cbn [no_vacia negb orb].
  - split; [now left | reflexivity].
  - rewrite isin_In. split; [now right|].
    intros [H|H]; [discriminate H | exact H].
Qed.

Lemma cumpleb_spec (f : filtros) (r : fila) :
  cumpleb f r = true <-> cumple f r.
Proof.
  unfold cumpleb, cumple. rewrite !andb_true_iff, !admiteb_spec.
  assert (Hn : negb (no_vacio (niu f)) || (astype_str (NIU r) =? niu f)%string
               = true
               <-> niu f = "" \/ astype_str (NIU r) = niu f).
  { rewrite orb_true_iff, String.eqb_eq.
    destruct (niu f); simpl; split; intros [H|H];
      try discriminate H; auto. }
  rewrite Hn. tauto.
Qed.

Lemma filter_filter {A : Type} (p q : A -> bool) (l : list A) :
  filter q (filter p l) = filter (fun x => p x && q x) l.
Proof.
  induction l as [|x l IH]; simpl; [reflexivity|].
  destruct (p x); simpl; [destruct (q x)|]; now rewrite IH.
Qed.

Lemma filter_true {A : Type} (l : list A) : filter (fun _ => true) l = l.
Proof. induction l as [|x l IH]; simpl; now rewrite ?IH. Qed.

Lemma filtrar_isin_filter (col : fila -> celda) (sel : list celda)
    (df : tabla) :
  filtrar_isin col sel df = filter (fun r => admiteb sel (col r)) df.
Proof.
  unfold filtrar_isin, admiteb. destruct sel; simpl.
  - now rewrite filter_true.
  - reflexivity.
Qed.

Lemma filtrar_niu_filter (n : string) (df : tabla) :
  filtrar_niu n df
  = filter (fun r => negb (no_vacio n) || String.eqb (astype_str (NIU r)) n) df.
Proof.
  unfold filtrar_niu. destruct n; simpl.
  - now rewrite filter_true.
  - reflexivity.
Qed.

Lemma df_filtrado_filter (f : filtros) (df : tabla) :
  df_filtrado f df = filter (cumpleb f) df.
Proof.
  unfold df_filtrado. rewrite filtrar_niu_filter, !filtrar_isin_filter.
  rewrite !filter_filter. apply filter_ext. intros r. unfold cumpleb.
  now rewrite !andb_assoc.
Qed.

(** C2: for every table and every selection, the filtered frame is the
    table restricted, in order, to the rows that satisfy the
    specification's predicate: membership in each non-empty selection,
    conjunction across the fields, string equality of the NIU with the
    selected one if any; with nothing selected the frame is the whole
    table. *)
Theorem df_filtrado_spec (f : filtros) (df : tabla) :
  df_filtrado f df = filter (cumpleb f) df
  /\ (forall r, cumpleb f r = true <-> cumple f r)
  /\ (forall r, In r (df_filtrado f df) <-> In r df /\ cumple f r)
  /\ df_filtrado sin_filtros df = df.
Proof.
  split; [apply df_filtrado_filter|].
  split; [apply cumpleb_spec|]. split.
  - intros r. rewrite df_filtrado_filter, filter_In, cumpleb_spec. tauto.
  - rewrite df_filtrado_filter. apply filter_true.
Qed.

(** ** The order of group keys *)

Lemma string_compare_trans (s t u : string) :
  String.compare s t <> Gt -> String.compare t u <> Gt ->
  String.compare s u <> Gt.
Proof.
  revert t u. induction s as [|a s IH]; intros [|b t] [|c u]; simpl;
    try congruence.
  unfold Ascii.compare.
  destruct (N.compare_spec (N_of_ascii a) (N_of_ascii b)) as [Eab|Lab|Gab],
           (N.compare_spec (N_of_ascii b) (N_of_ascii c)) as [Ebc|Lbc|Gbc],
           (N.compare_spec (N_of_ascii a) (N_of_ascii c)) as [Eac|Lac|Gac];
    try congruence; try lia.
  apply IH.
Qed.

Lemma string_leb_trans (s t u : string) :
  String.leb s t = true -> String.leb t u = true -> String.leb s u = true.
Proof.
  unfold String.leb. intros H1 H2.
  assert (K := string_compare_trans s t u).
  destruct (String.compare s t), (String.compare t u), (String.compare s u);
    try reflexivity; try discriminate; exfalso; apply K; congruence.
Qed.

Lemma clave_le_total (a b : celda) : clave_le a b \/ clave_le b a.
Proof.
  unfold clave_le. destruct a as [x|s|], b as [y|t|]; simpl; auto.
  - rewrite !Z.leb_le. lia.
  - apply String.leb_total.
Qed.

Lemma clave_le_trans (a b c : celda) :
  clave_le a b -> clave_le b c -> clave_le a c.
Proof.
  unfold clave_le.
  destruct a as [x|s|], b as [y|t|], c as [z|u|]; simpl;
    try congruence.
  - rewrite !Z.leb_le. lia.
  - apply string_leb_trans.
Qed.

Lemma clave_le_antisym (a b : celda) :
  clave_le a b -> clave_le b a -> a = b.
Proof.
  unfold clave_le. destruct a as [x|s|], b as [y|t|]; simpl;
    try congruence.
  - rewrite !Z.leb_le. intros. f_equal. lia.
  - intros H1 H2. f_equal. now apply String.leb_antisym.
Qed.

(** ** Sorting and deduplication of the keys *)

Lemma insertar_perm (x : celda) (l : list celda) :
  Permutation (insertar x l) (x :: l).
Proof.
  induction l as [|y t IH]; simpl; [reflexivity|].
  destruct (clave_leb x y); [reflexivity|].
  rewrite IH. apply perm_swap.
Qed.

Lemma ordenar_perm (l : list celda) : Permutation (ordenar l) l.
Proof.
  induction l as [|x t IH]; simpl; [reflexivity|].
  rewrite insertar_perm. now apply perm_skip.
Qed.

Lemma insertar_sorted (x : celda) (l : list celda) :
  StronglySorted clave_le l -> StronglySorted clave_le (insertar x l).
Proof.
  induction 1 as [|y t Hs IH Hy]; simpl.
  - repeat constructor.
  - destruct (clave_leb x y) eqn:E.
    + constructor; [now constructor|]. constructor; [exact E|].
      eapply Forall_impl; [|exact Hy]. intros z Hz.
      now apply clave_le_trans with y.
    + constructor; [exact IH|].
      apply Forall_forall. intros z Hz.
      apply (Permutation_in _ (insertar_perm x t)) in Hz.
      destruct Hz as [<-|Hz].
      * destruct (clave_le_total x y) as [K|K]; [|exact K].
        unfold clave_le in K. congruence.
      * rewrite Forall_forall in Hy. now apply Hy.
Qed.

Lemma ordenar_sorted (l : list celda) : StronglySorted clave_le (ordenar l).
Proof.
  induction l as [|x t IH]; simpl; [constructor|].
  now apply insertar_sorted.
Qed.

Lemma sorted_estricto (l : list celda) :
  NoDup l -> StronglySorted clave_le l -> StronglySorted clave_lt l.
Proof.
  induction 2 as [|x t Hs IH Hx]; [constructor|].
  inversion H as [|? ? Hnotin Hnd]; subst.
  constructor; [now apply IH|].
  apply Forall_forall. intros y Hy. split.
  - rewrite Forall_forall in Hx. now apply Hx.
  - intros ->. contradiction.
Qed.

Lemma unique_In (x : celda) (l : list celda) : In x (unique l) <-> In x l.
Proof.
  induction l as [|y t IH]; simpl; [tauto|].
  rewrite filter_In, IH.
  destruct (celda_eqb_spec y x) as [->|Hne]; simpl.
  - tauto.
  - split; [tauto|]. intros [H|H]; [now left | now right].
Qed.

Lemma unique_NoDup (l : list celda) : NoDup (unique l).
Proof.
  induction l as [|y t IH]; simpl; constructor.
  - rewrite filter_In. intros [_ H]. now rewrite celda_eqb_refl in H.
  - now apply NoDup_filter.
Qed.

Lemma claves_In (k : celda) (df : tabla) :
  In k (claves df) <-> k <> CNaN /\ exists r, In r df /\ NIU r = k.
Proof.
  unfold claves, dropna. split.
  - intros H. apply (Permutation_in _ (ordenar_perm _)) in H.
    apply unique_In, filter_In in H. destruct H as [H Hk].
    apply in_map_iff in H. destruct H as [r [Hr Hin]]. split.
    + intros ->. discriminate Hk.
    + now exists r.
  - intros [Hk [r [Hin Hr]]].
    apply (Permutation_in _ (Permutation_sym (ordenar_perm _))).
    apply unique_In, filter_In. split.
    + subst k. now apply in_map.
    + destruct k; [reflexivity | reflexivity | congruence].
Qed.

Lemma claves_NoDup (df : tabla) : NoDup (claves df).
Proof.
  unfold claves.
  apply (Permutation_NoDup (Permutation_sym (ordenar_perm _))).
  apply unique_NoDup.
Qed.

Lemma claves_sorted (df : tabla) : StronglySorted clave_lt (claves df).
Proof.
  apply sorted_estricto; [apply claves_NoDup | apply ordenar_sorted].
Qed.


(** ** int64 sums and the exact sum *)

Lemma wrap64_add_l (a b : Z) : wrap64 (wrap64 a + b) = wrap64 (a + b).
Proof.
  unfold wrap64. f_equal.
  replace ((a + 2 ^ 63) mod 2 ^ 64 - 2 ^ 63 + b + 2 ^ 63)
    with ((a + 2 ^ 63) mod 2 ^ 64 + b) by ring.
  rewrite Zplus_mod_idemp_l. f_equal. ring.
Qed.


Lemma fold_wrap64 (l : list Z) (a : Z) :
  fold_left (fun acc x => wrap64 (acc + x)) l (wrap64 a)
  = wrap64 (a + suma l).
Proof.
  revert a. induction l as [|x t IH]; intros a; simpl.
  - f_equal. ring.
  - rewrite wrap64_add_l, IH. f_equal. ring.
Qed.

Lemma suma_int64_wrap (l : list Z) : suma_int64 l = wrap64 (suma l).
Proof.
  unfold suma_int64. change 0 with (wrap64 0) at 1.
  rewrite fold_wrap64. reflexivity.
Qed.


(** ** Groups partition the rows that have a key *)








(** ** The aggregated rows *)

Lemma first_presente (x : celda) (t : list celda) :
  x <> CNaN -> first (x :: t) = x.
Proof.
  intros H. unfold first. simpl.
  destruct x; [reflexivity | reflexivity | congruence].
Qed.

Lemma first_primer_valor (l : list celda) : primer_valor l (first l).
Proof.
  induction l as [|x t IH].
  - right. split; constructor.
  - destruct (celda_eqb_spec x CNaN) as [->|Hx].
    + change (first (CNaN :: t)) with (first t).
      destruct IH as [[pre [post [E [Hpre Hc]]]]|[Hall Hc]].
      * left. exists (CNaN :: pre), post. split; [|split].
        -- cbn [app]. f_equal. exact E.
        -- now constructor.
        -- exact Hc.
      * right. split; [now constructor | exact Hc].
    + left. exists [], t. rewrite first_presente by exact Hx.
      split; [reflexivity | split; [constructor | exact Hx]].
Qed.

Lemma grupo_In (k : celda) (df : tabla) (r : fila) :
  In r (grupo k df) <-> In r df /\ NIU r = k.
Proof. unfold grupo. now rewrite filter_In, celda_eqb_eq. Qed.

Lemma grupo_no_vacio (k : celda) (df : tabla) :
  In k (claves df) -> exists r resto, grupo k df = r :: resto.
Proof.
  intros H. apply claves_In in H. destruct H as [_ [r [Hin Hr]]].
  destruct (grupo k df) as [|r' resto] eqn:E.
  - assert (K : In r (grupo k df)) by now apply grupo_In.
    rewrite E in K. contradiction.
  - now exists r', resto.
Qed.

Lemma agrupado_In (g : fila_agrupada) (df : tabla) :
  In g (agrupado df) ->
  In (g_NIU g) (claves df) /\ g = agregar (g_NIU g) (grupo (g_NIU g) df).
Proof.
  unfold agrupado. intros H. apply in_map_iff in H.
  destruct H as [k [<- Hk]]. simpl. now split.
Qed.

Lemma df_filtrado_recodificada (f : filtros) (crudo : tabla) (r : fila) :
  In r (df_filtrado f (cargar_datos crudo)) ->
  exists r0, r = recodificar r0.
Proof.
  rewrite df_filtrado_filter, filter_In. intros [H _].
  unfold cargar_datos in H. apply in_map_iff in H.
  destruct H as [r0 [E _]]. now exists r0.
Qed.

Lemma agregar_descriptivas (k : celda) (grp : tabla)
    (col : fila -> celda) (gcol : fila_agrupada -> celda) :
  In (col, gcol) descriptivas ->
  gcol (agregar k grp) = first (map col grp).
Proof.
  intros H. simpl in H.
  repeat (destruct H as [H|H]; [injection H as <- <-; reflexivity|]).
  contradiction.
Qed.

(** C9 (as stated, refuted): two rows of one customer, the first with a
    blank NOMBRE; the aggregated NOMBRE is the second row's "ANA", not the
    first row's missing value. *)
Lemma agrupado_first_no_es_primera_fila :
  ~ (forall (crudo : tabla) (f : filtros) (g : fila_agrupada)
            (r : fila) (resto : tabla),
       let v := df_filtrado f (cargar_datos crudo) in
       In g (agrupado v) ->
       grupo (g_NIU g) v = r :: resto ->
       g_NOMBRE g = NOMBRE r).
Proof.
  intros H.
  pose (crudo := [ fila_de (CStr "A1") CNaN (CStr "ARMENIA")
                     (CInt 0) (CInt 601) 100;
                   fila_de (CStr "A1") (CStr "ANA") (CStr "ARMENIA")
                     (CInt 0) (CInt 601) 50 ]).
  pose (v := df_filtrado sin_filtros (cargar_datos crudo)).
  specialize (H crudo sin_filtros
                (agregar (CStr "A1") v) (hd (fila_de CNaN CNaN CNaN CNaN CNaN 0) v)
                (tl v)).
  cbv zeta in H.
  assert (K : g_NOMBRE (agregar (CStr "A1") v)
              = NOMBRE (hd (fila_de CNaN CNaN CNaN CNaN CNaN 0) v)).
  { apply H; vm_compute; [now left | reflexivity]. }
  vm_compute in K. discriminate K.
Qed.

(** C9 (amended): for every filtered view and every customer group of the
    main-tab aggregation, each descriptive field (name, address,
    municipality, cycle, aging bucket, service code) of the aggregated
    row is the first value of that field that is not missing among the
    group's rows, in the order of the view (missing when the group has
    none); it is the first row's value whenever the first row has one,
    which is always so for the aging bucket and the service code. *)
Theorem agrupado_first_spec (crudo : tabla) (f : filtros)
    (g : fila_agrupada) :
  let v := df_filtrado f (cargar_datos crudo) in
  In g (agrupado v) ->
  exists r resto,
    grupo (g_NIU g) v = r :: resto
    /\ (forall col gcol, In (col, gcol) descriptivas ->
          primer_valor (map col (r :: resto)) (gcol g)
          /\ (col r <> CNaN -> gcol g = col r))
    /\ g_EDAD g = EDAD r
    /\ g_CODIGO_DEL_SERVICIO g = CODIGO_DEL_SERVICIO r.
Proof.
  intros v Hg. apply agrupado_In in Hg. destruct Hg as [Hk Eg].
  destruct (grupo_no_vacio _ _ Hk) as [r [resto E]].
  exists r, resto. split; [exact E|].
  assert (Hr : In r v).
  { assert (K : In r (grupo (g_NIU g) v)) by (rewrite E; now left).
    now apply grupo_In in K. }
  destruct (df_filtrado_recodificada _ _ _ Hr) as [r0 Er0].
  rewrite E in Eg. split; [|split].
  - intros col gcol Hc. rewrite Eg.
    rewrite (agregar_descriptivas _ _ _ _ Hc). split.
    + apply first_primer_valor.
    + intros Hp. now apply first_presente.
  - rewrite Eg. simpl. apply first_presente. subst r. discriminate.
  - rewrite Eg. simpl. apply first_presente. subst r. discriminate.
Qed.

Lemma agrupado_first_spec_witness :
  let crudo := [ fila_de (CStr "A1") CNaN (CStr "ARMENIA")
                   (CInt 0) (CInt 601) 100;
                 fila_de (CStr "A1") (CStr "ANA") (CStr "CALARCA")
                   (CInt 2) (CInt 603) 50 ] in
  let v := df_filtrado sin_filtros (cargar_datos crudo) in
  exists r resto,
    grupo (CStr "A1") v = r :: resto
    /\ (forall col gcol, In (col, gcol) descriptivas ->
          primer_valor (map col (r :: resto)) (gcol (agregar (CStr "A1") v))
          /\ (col r <> CNaN -> gcol (agregar (CStr "A1") v) = col r))
    /\ g_EDAD (agregar (CStr "A1") v) = EDAD r
    /\ g_CODIGO_DEL_SERVICIO (agregar (CStr "A1") v) = CODIGO_DEL_SERVICIO r.
Proof.
  intros crudo v.
  apply (agrupado_first_spec crudo sin_filtros (agregar (CStr "A1") v)).
  vm_compute. now left.
Defined.


(** ** The average balance per customer *)

Lemma unique_dropna_In (k : celda) (df : tabla) :
  In k (unique (dropna (map NIU df)))
  <-> k <> CNaN /\ exists r, In r df /\ NIU r = k.
Proof.
  rewrite <- claves_In. unfold claves. split; intros H.
  - now apply (Permutation_in _ (Permutation_sym (ordenar_perm _))).
  - now apply (Permutation_in _ (ordenar_perm _)) in H.
Qed.

Lemma truediv_None (a b : Z) : truediv a b = None <-> b = 0.
Proof.
  unfold truediv. destruct (Z.eqb_spec b 0); split; congruence.
Qed.

(** C7: for every selected service code, with [d] the rows of that code,
    [n] is the number of distinct customer ids of [d]; the average is the
    quotient of the total balance by [n] when [n] is positive, and 0 when
    [n] is 0; the computation never reaches a division by zero. *)
Theorem promedio_spec (filtro_servicio : string) (df : tabla) :
  let d := df_filtrado_servicio filtro_servicio df in
  let total := saldo_total d in
  let n := clientes_unicos d in
  (forall r, In r d <-> In r df /\ CODIGO_DEL_SERVICIO r = CStr filtro_servicio)
  /\ (exists ids,
         NoDup ids
         /\ (forall k, In k ids <-> k <> CNaN /\ exists r, In r d /\ NIU r = k)
         /\ n = Z.of_nat (List.length ids))
  /\ (0 < n ->
      promedio d
      = Some (VFloat (SFdiv prec emax (float64_of_int total)
                        (float64_of_int n))))
  /\ (n = 0 -> promedio d = Some (VInt 0))
  /\ promedio d <> None
  /\ (forall a b, truediv a b = None <-> b = 0).
Proof.
  intros d total n. split; [|split; [|split; [|split; [|split]]]].
  - intros r. unfold d, df_filtrado_servicio.
    now rewrite filter_In, celda_eqb_eq.
  - exists (unique (dropna (map NIU d))). split; [apply unique_NoDup|].
    split; [intros k; apply unique_dropna_In | reflexivity].
  - intros Hn. unfold promedio. fold n total.
    destruct (Z.gtb_spec n 0) as [_|K]; [|lia].
    unfold truediv. destruct (Z.eqb_spec n 0); [lia | reflexivity].
  - intros Hn. unfold promedio. fold n. now rewrite Hn.
  - unfold promedio. fold n total.
    destruct (Z.gtb_spec n 0) as [Hn|_]; [|discriminate].
    rewrite truediv_None. lia.
  - apply truediv_None.
Qed.

Lemma promedio_spec_witness :
  let df := [ fila_de (CStr "A1") (CStr "ANA") (CStr "ARMENIA")
                (CStr "Corriente") (CStr "Energía") 3;
              fila_de (CStr "B2") (CStr "LUZ") (CStr "ARMENIA")
                (CStr "Corriente") (CStr "Energía") 4;
              fila_de (CStr "A1") (CStr "ANA") (CStr "ARMENIA")
                (CStr "Corriente") (CStr "Somos") 9 ] in
  promedio (df_filtrado_servicio "Energía" df)
  = Some (VFloat (S754_finite false 7881299347898368 (-51)))
  /\ promedio (df_filtrado_servicio "Terceros" df) = Some (VInt 0).
Proof.
  intros df. split.
  - apply (promedio_spec "Energía" df). reflexivity.
  - apply (promedio_spec "Terceros" df). reflexivity.
Defined.

(** ** Top 10 *)

















(** ** Currency formatting *)















(** ** The specification's scenarios, evaluated *)

(** Raw EDAD values "0", "1", "9", "99". *)
Example edades_de_ejemplo :
  map col_EDAD [CStr "0"; CStr "1"; CStr "9"; CStr "99"]
  = ["Corriente"; "1 a 30 Días"; "> a 180 Días"; "> a 180 Días"].
Proof. reflexivity. Qed.

(** Three rows of one NIU with balances 100, 200 and 300 aggregate to one
    row of balance 600, shown as [$600]. *)
Example tres_filas_un_NIU :
  let f := fun s => fila_de (CInt 77) (CStr "ANA") (CStr "ARMENIA")
                      (CInt 0) (CInt 601) s in
  let v := df_filtrado sin_filtros (cargar_datos [f 100; f 200; f 300]) in
  map (fun g => (g_NIU g, formato_pesos (VInt (g_SALDO_CARTERA g))))
      (agrupado v)
  = [(CInt 77, Some "$600")].
Proof. reflexivity. Qed.

(** Negative amounts, ties and the values that are no numbers. *)
Example formato_pesos_bordes :
  formato_pesos (VInt (-1234567)) = Some "$-1.234.567"
  /\ formato_pesos (VFloat (S754_finite false 1 (-1))) = Some "$0"
  /\ formato_pesos (VFloat (S754_finite false 3 (-1))) = Some "$2"
  /\ formato_pesos (VFloat (S754_finite false 5 (-1))) = Some "$2"
  /\ formato_pesos (VFloat S754_nan) = Some "$nan"
  /\ formato_pesos (VFloat (S754_infinity true)) = Some "$-inf"
  /\ formato_pesos (VInt (2 ^ 1024)) = None.
Proof. repeat (split; [reflexivity|]). reflexivity. Qed.

(** * Further properties of the script *)

(** ** Keys of a grouping by any column *)

Lemma unique_dropna_col (col : fila -> celda) (df : tabla) (c : celda) :
  In c (unique (dropna (map col df)))
  <-> c <> CNaN /\ exists r, In r df /\ col r = c.
Proof.
  rewrite unique_In. unfold dropna. rewrite filter_In, in_map_iff. split.
  - intros [[r [E Hr]] Hc]. split; [intros ->; discriminate Hc | now exists r].
  - intros [Hc [r [Hr E]]]. split; [now exists r|].
    destruct c; [reflexivity | reflexivity | congruence].
Qed.

Lemma claves_por_In (col : fila -> celda) (df : tabla) (k : celda) :
  In k (claves_por col df) <-> k <> CNaN /\ exists r, In r df /\ col r = k.
Proof.
  rewrite <- unique_dropna_col. unfold claves_por. split; intros H.
  - now apply (Permutation_in _ (ordenar_perm _)) in H.
  - now apply (Permutation_in _ (Permutation_sym (ordenar_perm _))).
Qed.


(** ** Composition of the filters *)

(** X1: filtering is idempotent: applying a selection to a view that
    the same selection produced returns the same view. *)
Theorem df_filtrado_idempotente (f : filtros) (df : tabla) :
  df_filtrado f (df_filtrado f df) = df_filtrado f df.
Proof.
  rewrite !df_filtrado_filter, filter_filter. apply filter_ext.
  intros r. apply andb_diag.
Qed.

(** X2: two selections applied one after the other keep exactly the rows
    of the table that satisfy both, whichever is applied first. *)
Theorem df_filtrado_conmuta (f g : filtros) (df : tabla) :
  df_filtrado g (df_filtrado f df) = df_filtrado f (df_filtrado g df)
  /\ (forall r, In r (df_filtrado g (df_filtrado f df))
                <-> In r df /\ cumple f r /\ cumple g r).
Proof.
  split.
  - rewrite !df_filtrado_filter, !filter_filter. apply filter_ext.
    intros r. apply andb_comm.
  - intros r. rewrite !df_filtrado_filter, !filter_In, !cumpleb_spec. tauto.
Qed.

(** ** Exact sums *)

(** X3: an [int64] sum is the exact sum whenever the exact sum fits in
    64 bits. *)
Theorem suma_int64_exacta (l : list Z) :
  - 2 ^ 63 <= suma l < 2 ^ 63 -> suma_int64 l = suma l.
Proof.
  intros H. rewrite suma_int64_wrap. unfold wrap64.
  rewrite Z.mod_small; lia.
Qed.

Lemma suma_int64_exacta_witness :
  suma_int64 [100; -250; 2 ^ 62] = suma [100; -250; 2 ^ 62].
Proof.
  apply (suma_int64_exacta [100; -250; 2 ^ 62]). vm_compute.
  split; [discriminate | reflexivity].
Defined.

(** ** Aggregation and the NIU filter *)

Lemma sorted_unico (l1 l2 : list celda) :
  StronglySorted clave_lt l1 -> StronglySorted clave_lt l2 ->
  (forall x, In x l1 <-> In x l2) -> l1 = l2.
Proof.
  intros H1. revert l2. induction H1 as [|a t1 Ht1 IH Ha]; intros l2 H2 Hin.
  - destruct l2 as [|b t2]; [reflexivity|].
    destruct (proj2 (Hin b) (or_introl eq_refl)).
  - destruct H2 as [|b t2 Ht2 Hb].
    + destruct (proj1 (Hin a) (or_introl eq_refl)).
    + rewrite Forall_forall in Ha, Hb.
      assert (E : a = b).
      { destruct (proj1 (Hin a) (or_introl eq_refl)) as [K|K]; [now symmetry|].
        destruct (proj2 (Hin b) (or_introl eq_refl)) as [K'|K']; [exact K'|].
        destruct (Hb a K) as [Hba _]. destruct (Ha b K') as [Hab _].
        now apply clave_le_antisym. }
      subst b. f_equal. apply IH; [exact Ht2|].
      intros x. split; intros Hx.
      * destruct (proj1 (Hin x) (or_intror Hx)) as [K|K]; [|exact K].
        subst x. destruct (Ha a Hx) as [_ K]. now contradiction K.
      * destruct (proj2 (Hin x) (or_intror Hx)) as [K|K]; [|exact K].
        subst x. destruct (Hb a Hx) as [_ K]. now contradiction K.
Qed.

Lemma sorted_filter {A : Type} (R : A -> A -> Prop) (p : A -> bool)
    (l : list A) :
  StronglySorted R l -> StronglySorted R (filter p l).
Proof.
  induction 1 as [|x t Ht IH Hx]; simpl; [constructor|].
  destruct (p x); [|exact IH]. constructor; [exact IH|].
  apply Forall_forall. intros y Hy. apply filter_In in Hy.
  rewrite Forall_forall in Hx. now apply Hx.
Qed.

Lemma filter_map_conmuta {A B : Type} (f : A -> B) (p : B -> bool)
    (l : list A) :
  filter p (map f l) = map f (filter (fun x => p (f x)) l).
Proof.
  induction l as [|x t IH]; simpl; [reflexivity|].
  destruct (p (f x)); simpl; now rewrite IH.
Qed.

(** X4: filtering by a NIU and then aggregating gives the rows that
    the aggregation of the whole table has for that NIU: the filter
    changes neither the balance nor the descriptive fields of a
    customer. *)
Theorem agrupado_niu_conmuta (df : tabla) (n : string) :
  n <> "" ->
  agrupado (df_filtrado (solo_niu n) df)
  = filter (fun g => String.eqb (astype_str (g_NIU g)) n) (agrupado df).
Proof.
  intros Hn.
  assert (Hv : df_filtrado (solo_niu n) df
               = filter (fun r => String.eqb (astype_str (NIU r)) n) df).
  { rewrite df_filtrado_filter. apply filter_ext. intros r.
    unfold cumpleb. simpl. destruct n; [congruence | reflexivity]. }
  rewrite Hv. set (v := filter _ df).
  unfold agrupado at 2. rewrite filter_map_conmuta. cbn [g_NIU agregar].
  assert (Hk : claves v
               = filter (fun k => String.eqb (astype_str k) n) (claves df)).
  { apply sorted_unico.
    - apply claves_sorted.
    - apply sorted_filter, claves_sorted.
    - intros k. rewrite filter_In, !claves_In. unfold v. split.
      + intros [Hk [r [Hr E]]]. apply filter_In in Hr.
        destruct Hr as [Hr Hc]. subst k.
        split; [|exact Hc]. split; [exact Hk | now exists r].
      + intros [[Hk [r [Hr E]]] Hc]. split; [exact Hk|]. exists r.
        split; [|exact E]. apply filter_In. split; [exact Hr|].
        now rewrite E. }
  unfold agrupado. rewrite Hk. apply map_ext_in. intros k Hkin.
  apply filter_In in Hkin. destruct Hkin as [_ Hc]. f_equal.
  unfold grupo, v. rewrite filter_filter. apply filter_ext. intros r.
  destruct (celda_eqb_spec (NIU r) k) as [->|]; [|apply andb_false_r].
  now rewrite Hc.
Qed.

Lemma agrupado_niu_conmuta_witness :
  let df := [ fila_de (CStr "B7") (CStr "ANA") (CStr "ARMENIA")
                (CStr "Corriente") (CStr "Energía") 100;
              fila_de (CStr "A2") (CStr "LUZ") (CStr "CALARCA")
                (CStr "Corriente") (CStr "Energía") 200;
              fila_de (CStr "B7") (CStr "ANA") (CStr "ARMENIA")
                (CStr "Corriente") (CStr "Somos") 300 ] in
  agrupado (df_filtrado (solo_niu "B7") df)
  = filter (fun g => String.eqb (astype_str (g_NIU g)) "B7") (agrupado df).
Proof.
  intros df. apply (agrupado_niu_conmuta df "B7"). discriminate.
Defined.

(** ** The top table on short frames *)




(** ** The charts of the reports tab *)


(** The rows of a table that was loaded and then restricted to a service
    code. *)
Lemma df_filtrado_servicio_recodificada (crudo : tabla) (filtro : string)
    (r : fila) :
  In r (df_filtrado_servicio filtro (cargar_datos crudo)) ->
  exists r0, r = recodificar r0.
Proof.
  unfold df_filtrado_servicio, cargar_datos. rewrite filter_In, in_map_iff.
  intros [[r0 [E _]] _]. now exists r0.
Qed.


Lemma suma_longitudes (F : celda -> list celda) (K : list celda) :
  suma (map (fun k => Z.of_nat (List.length (F k))) K)
  = Z.of_nat (List.length (flat_map F K)).
Proof.
  induction K as [|k K IH]; simpl; [reflexivity|].
  rewrite IH, length_app. lia.
Qed.

(** X7: on a loaded table, the client count written on a bar never
    exceeds the "Clientes Únicos" of the KPI row, and the counts of all
    bars add up to at least that number (a customer with rows in two
    aging buckets is counted on both bars). *)
Theorem clientes_por_barra (crudo : tabla) (filtro_servicio : string) :
  let d := df_filtrado_servicio filtro_servicio (cargar_datos crudo) in
  (forall b, In b (cartera_por_edad d) -> 0 <= e_NIU b <= clientes_unicos d)
  /\ clientes_unicos d <= suma (map e_NIU (cartera_por_edad d)).
Proof.
  intros d. split.
  - intros b Hb. unfold cartera_por_edad in Hb. apply in_map_iff in Hb.
    destruct Hb as [k [<- Hk]]. cbn [e_NIU]. unfold clientes_unicos.
    split; [lia|]. apply Nat2Z.inj_le.
    apply NoDup_incl_length; [apply unique_NoDup|].
    intros x Hx. apply unique_dropna_col in Hx.
    destruct Hx as [Hn [r [Hr E]]]. apply unique_dropna_col.
    split; [exact Hn|]. exists r. split; [|exact E].
    unfold grupo_por in Hr. now apply filter_In in Hr.
  - unfold cartera_por_edad. rewrite map_map. cbn [e_NIU].
    unfold clientes_unicos at 2.
    rewrite (suma_longitudes
               (fun k => unique (dropna (map NIU (grupo_por EDAD k d))))).
    unfold clientes_unicos. apply Nat2Z.inj_le.
    apply NoDup_incl_length; [apply unique_NoDup|].
    intros x Hx. apply unique_dropna_col in Hx.
    destruct Hx as [Hn [r [Hr E]]]. apply in_flat_map.
    exists (EDAD r). split.
    + apply claves_por_In. split; [|now exists r].
      destruct (df_filtrado_servicio_recodificada _ _ _ Hr) as [r0 ->].
      discriminate.
    + apply unique_dropna_col. split; [exact Hn|]. exists r.
      split; [|exact E]. unfold grupo_por. apply filter_In.
      split; [exact Hr | apply celda_eqb_refl].
Qed.

(** ** Integer amounts through the formatter *)








